(** * core-js-101, 05-objects-tasks.js: the CSS selector builder and the
      rectangle / JSON helpers.

    The class [CssSelectorBuilder] mutates its receiver and signals misuse by
    throwing.  Its methods are embedded in a state-and-exception monad whose
    state is the receiver's fields: a throw keeps whatever the receiver held
    at that point, exactly as a JavaScript object keeps its mutations when a
    method throws half-way. *)

From Stdlib Require Import String Ascii List Arith Bool Lia ZArith.
From Stdlib Require Import DecimalString DecimalFacts DecimalPos.
Import ListNotations.
Open Scope string_scope.

(* ------------------------------------------------------------------ *)
(** ** The receiver's fields                                            *)

(** The six keys of [this.selectorOccurances], which are also the entries of
    [this.validOrder] and the arguments of the two checking methods. *)
Inductive selectorType : Type :=
| Element | Id | Class | Attr | PseudoClass | PseudoElement.

Definition selectorType_eqb (a b : selectorType) : bool :=
  match a, b with
  | Element, Element | Id, Id | Class, Class | Attr, Attr
  | PseudoClass, PseudoClass | PseudoElement, PseudoElement => true
  | _, _ => false
  end.

(** The object literal assigned to [this.selectorOccurances].  The counters
    start at 0 and only ever grow by 1, so they are naturals. *)
Record occurances : Type := mkOccurances {
  n_element : nat;
  n_id : nat;
  n_class : nat;
  n_attr : nat;
  n_pseudoClass : nat;
  n_pseudoElement : nat
}.

(** [this.selectorOccurances[t]] *)
Definition occ (o : occurances) (t : selectorType) : nat :=
  match t with
  | Element => n_element o
  | Id => n_id o
  | Class => n_class o
  | Attr => n_attr o
  | PseudoClass => n_pseudoClass o
  | PseudoElement => n_pseudoElement o
  end.

(** [this.selectorOccurances.t += 1] *)
Definition occ_incr (o : occurances) (t : selectorType) : occurances :=
  match t with
  | Element => mkOccurances (n_element o + 1) (n_id o) (n_class o) (n_attr o) (n_pseudoClass o) (n_pseudoElement o)
  | Id => mkOccurances (n_element o) (n_id o + 1) (n_class o) (n_attr o) (n_pseudoClass o) (n_pseudoElement o)
  | Class => mkOccurances (n_element o) (n_id o) (n_class o + 1) (n_attr o) (n_pseudoClass o) (n_pseudoElement o)
  | Attr => mkOccurances (n_element o) (n_id o) (n_class o) (n_attr o + 1) (n_pseudoClass o) (n_pseudoElement o)
  | PseudoClass => mkOccurances (n_element o) (n_id o) (n_class o) (n_attr o) (n_pseudoClass o + 1) (n_pseudoElement o)
  | PseudoElement => mkOccurances (n_element o) (n_id o) (n_class o) (n_attr o) (n_pseudoClass o) (n_pseudoElement o + 1)
  end.

(** An instance of the class.  [this.validOrder] is assigned once in the
    constructor and never written again; it is the constant [validOrder]. *)
Record builder : Type := mkBuilder {
  value : string;
  selectorsToCombine : list string;
  selectorOccurances : occurances
}.

Definition validOrder : list selectorType :=
  [Element; Id; Class; Attr; PseudoClass; PseudoElement].

(** The two [new Error(...)] thrown by the class, told apart by message. *)
Inductive error : Type :=
| DuplicateSelectorPart
| OrderViolation.

Definition message (e : error) : string :=
  match e with
  | DuplicateSelectorPart =>
      "Element, id and pseudo-element should not occur more then one time inside the selector"
  | OrderViolation =>
      "Selector parts should be arranged in the following order: element, id, class, attribute, pseudo-class, pseudo-element"
  end.

(* ------------------------------------------------------------------ *)
(** ** Methods as computations over the receiver                        *)

Inductive outcome (A : Type) : Type :=
| Returned (a : A)
| Thrown (e : error).
Arguments Returned {A} a.
Arguments Thrown {A} e.

(** A method body: from the receiver before the call to the receiver after
    it and what the call produced. *)
Definition M (A : Type) : Type := builder -> builder * outcome A.

Definition ret {A} (a : A) : M A := fun this => (this, Returned a).

Definition bind {A B} (m : M A) (k : A -> M B) : M B :=
  fun this =>
    match m this with
    | (this', Returned a) => k a this'
    | (this', Thrown e) => (this', Thrown e)
    end.

Definition throw {A} (e : error) : M A := fun this => (this, Thrown e).

Definition read {A} (f : builder -> A) : M A := fun this => (this, Returned (f this)).

Definition assign (f : builder -> builder) : M unit := fun this => (f this, Returned tt).

Declare Scope js_scope.
Delimit Scope js_scope with js.
Notation "x <- m ;; k" := (bind m (fun x => k))
  (at level 61, m at next level, right associativity) : js_scope.
Notation "m ;; k" := (bind m (fun _ => k))
  (at level 61, right associativity) : js_scope.
Open Scope js_scope.

(** JavaScript truthiness of a number and of a string. *)
Definition truthy_num (n : nat) : bool := negb (Nat.eqb n 0).
Definition truthy_str (s : string) : bool :=
  match s with EmptyString => false | _ => true end.

(** [Array.prototype.indexOf] on [validOrder] (every key is found). *)
Fixpoint indexOf (l : list selectorType) (t : selectorType) : nat :=
  match l with
  | [] => 0
  | x :: r => if selectorType_eqb x t then 0 else S (indexOf r t)
  end.

(** [Array.prototype.slice(start)] *)
Definition slice {A} (l : list A) (start : nat) : list A := skipn start l.

(** [Array.prototype.join(sep)] *)
Definition join (sep : string) (l : list string) : string := String.concat sep l.

Module CssSelectorBuilder.

(** [constructor()] *)
Definition new : builder :=
  mkBuilder "" [] (mkOccurances 0 0 0 0 0 0).

Definition handleNumberOfOccurances (t : selectorType) : M unit :=
  n <- read (fun this => occ (selectorOccurances this) t) ;;
  if truthy_num n then throw DuplicateSelectorPart else ret tt.

Definition checkSelectorsOrder (t : selectorType) : M unit :=
  nextSelectorOrder <-
    read (fun this =>
            filter (fun type => truthy_num (occ (selectorOccurances this) type))
                   (slice validOrder (indexOf validOrder t + 1))) ;;
  if negb (Nat.eqb (length nextSelectorOrder) 0) then throw OrderViolation else ret tt.

(** [this.selectorOccurances.t += 1] on the receiver. *)
Definition count (t : selectorType) : M unit :=
  assign (fun this =>
            mkBuilder (value this) (selectorsToCombine this)
                      (occ_incr (selectorOccurances this) t)).

(** [this.value += s] *)
Definition append (s : string) : M unit :=
  assign (fun this =>
            mkBuilder (value this ++ s) (selectorsToCombine this)
                      (selectorOccurances this)).

Definition element (v : string) : M unit :=
  handleNumberOfOccurances Element ;;
  checkSelectorsOrder Element ;;
  count Element ;;
  append v.

Definition id (v : string) : M unit :=
  handleNumberOfOccurances Id ;;
  checkSelectorsOrder Id ;;
  count Id ;;
  append ("#" ++ v).

Definition class (v : string) : M unit :=
  checkSelectorsOrder Class ;;
  count Class ;;
  append ("." ++ v).

Definition attr (v : string) : M unit :=
  checkSelectorsOrder Attr ;;
  count Attr ;;
  append ("[" ++ v ++ "]").

Definition pseudoClass (v : string) : M unit :=
  checkSelectorsOrder PseudoClass ;;
  count PseudoClass ;;
  append (":" ++ v).

Definition pseudoElement (v : string) : M unit :=
  handleNumberOfOccurances PseudoElement ;;
  count PseudoElement ;;
  append ("::" ++ v).

Definition stringify : M string :=
  len <- read (fun this => length (selectorsToCombine this)) ;;
  if negb (Nat.eqb len 0) then
    read (fun this => join " " (filter truthy_str (selectorsToCombine this)))
  else
    read value.

(** [selector1] and [selector2] are the argument objects as they are when
    the call is made; only their [value] and [selectorsToCombine] are
    read, and both hold strings, which are copied into the receiver. *)
Definition combine (selector1 : builder) (combinator : string) (selector2 : builder) : M unit :=
  len <- read (fun this => length (selectorsToCombine this)) ;;
  if negb (Nat.eqb len 0) then ret tt
  else
    assign (fun this =>
              mkBuilder (value this)
                        (selectorsToCombine this
                           ++ [value selector1; combinator; value selector2]
                           ++ selectorsToCombine selector2)
                        (selectorOccurances this)).

End CssSelectorBuilder.

(** The facade object: every entry builds a new instance and calls the
    method of the same name on it.  Each method ends in [return this]: the
    object handed back is the first component. *)
Module cssSelectorBuilder.

Definition element (v : string) := CssSelectorBuilder.element v CssSelectorBuilder.new.
Definition id (v : string) := CssSelectorBuilder.id v CssSelectorBuilder.new.
Definition class (v : string) := CssSelectorBuilder.class v CssSelectorBuilder.new.
Definition attr (v : string) := CssSelectorBuilder.attr v CssSelectorBuilder.new.
Definition pseudoClass (v : string) := CssSelectorBuilder.pseudoClass v CssSelectorBuilder.new.
Definition pseudoElement (v : string) := CssSelectorBuilder.pseudoElement v CssSelectorBuilder.new.
Definition combine (selector1 : builder) (combinator : string) (selector2 : builder) :=
  CssSelectorBuilder.combine selector1 combinator selector2 CssSelectorBuilder.new.

End cssSelectorBuilder.

(* ------------------------------------------------------------------ *)
(** ** Calls made by a client                                           *)

(** The appending method that records a part of kind [t]. *)
Definition invoke (t : selectorType) (v : string) : M unit :=
  match t with
  | Element => CssSelectorBuilder.element v
  | Id => CssSelectorBuilder.id v
  | Class => CssSelectorBuilder.class v
  | Attr => CssSelectorBuilder.attr v
  | PseudoClass => CssSelectorBuilder.pseudoClass v
  | PseudoElement => CssSelectorBuilder.pseudoElement v
  end.

(** A fluent chain [this.m1(v1).m2(v2)...]: the first throw ends it. *)
Fixpoint invokeAll (l : list (selectorType * string)) : M unit :=
  match l with
  | [] => ret tt
  | (t, v) :: r => invoke t v ;; invokeAll r
  end.

(** Any method call on one receiver. *)
Inductive call : Type :=
| Append (t : selectorType) (v : string)
| Combine (selector1 : builder) (combinator : string) (selector2 : builder)
| Stringify.

Definition perform (c : call) : M unit :=
  match c with
  | Append t v => invoke t v
  | Combine s1 c s2 => CssSelectorBuilder.combine s1 c s2
  | Stringify => CssSelectorBuilder.stringify ;; ret tt
  end.

(** The receiver after a history of calls, whether each returned or threw
    (a client may catch the error and keep using the object). *)
Definition after_calls (l : list call) (this : builder) : builder :=
  fold_left (fun b c => fst (perform c b)) l this.

(** [n] successive [stringify()] calls, with the strings they returned. *)
Fixpoint stringifyTimes (n : nat) : M (list string) :=
  match n with
  | 0 => ret []
  | S k => s <- CssSelectorBuilder.stringify ;; r <- stringifyTimes k ;; ret (s :: r)
  end.

(* ------------------------------------------------------------------ *)
(** ** Vocabulary of the specification                                  *)

(** Position in the canonical order. *)
Definition rank (t : selectorType) : nat := indexOf validOrder t.

(** The kinds limited to one occurrence. *)
Definition capped (t : selectorType) : bool :=
  match t with
  | Element | Id | PseudoElement => true
  | _ => false
  end.

(** Some kind ranked strictly after [t] has a non-zero counter. *)
Definition higher_recorded (t : selectorType) (this : builder) : bool :=
  existsb (fun k => (rank t <? rank k)%nat && truthy_num (occ (selectorOccurances this) k))
          validOrder.

(** Rendering of one part as the specification lists it: type name as-is,
    id as #name, class as .name, attribute as [spec], pseudo-class as :name,
    pseudo-element as ::name. *)
Definition canonical (p : selectorType * string) : string :=
  match p with
  | (Element, v) => v
  | (Id, v) => "#" ++ v
  | (Class, v) => "." ++ v
  | (Attr, v) => "[" ++ v ++ "]"
  | (PseudoClass, v) => ":" ++ v
  | (PseudoElement, v) => "::" ++ v
  end.

(** Kinds in non-decreasing rank order. *)
Fixpoint ascending (l : list (selectorType * string)) : bool :=
  match l with
  | [] => true
  | (t, _) :: r =>
      match r with
      | [] => true
      | (t', _) :: _ => (rank t <=? rank t')%nat && ascending r
      end
  end.

(** Number of parts of kind [t] in a sequence of appends. *)
Definition parts_of (t : selectorType) (l : list (selectorType * string)) : nat :=
  length (filter (fun p => selectorType_eqb (fst p) t) l).

(** No second Type, Id or PseudoElement. *)
Definition no_duplicates (l : list (selectorType * string)) : bool :=
  forallb (fun t => negb (capped t) || (parts_of t l <=? 1)%nat) validOrder.

(** What [stringify()] hands back. *)
Definition rendered (this : builder) : outcome string :=
  snd (CssSelectorBuilder.stringify this).

(** Strings put one after the other. *)
Definition concatenation (l : list string) : string :=
  fold_right String.append "" l.

(** [this.selectorsToCombine.length] as a condition. *)
Definition combined (this : builder) : bool :=
  truthy_num (length (selectorsToCombine this)).

(** A selector with some text and no chain. *)
Definition compound (b : builder) : bool :=
  negb (combined b) && truthy_str (value b).

(** What the facade's [combine] hands back: no text of its own, and a chain
    with something to show. *)
Definition chain_only (b : builder) : bool :=
  negb (truthy_str (value b)) && existsb truthy_str (selectorsToCombine b).

(** The facade's [combine(l, c, r)] returns, and renders as the rendering
    of [l], the string [c] and the rendering of [r], joined by single
    spaces. *)
Definition combinator_verbatim (l : builder) (c : string) (r : builder) : Prop :=
  exists sl sr,
    rendered l = Returned sl /\
    rendered r = Returned sr /\
    snd (cssSelectorBuilder.combine l c r) = Returned tt /\
    rendered (fst (cssSelectorBuilder.combine l c r)) = Returned (join " " [sl; c; sr]).

(** [s] opens with [p]. *)
Definition starts_with (p s : string) : bool := String.prefix p s.

(** Selectors used as concrete inputs. *)
Definition sel (l : list (selectorType * string)) : builder :=
  fst (invokeAll l CssSelectorBuilder.new).

Definition sel_a : builder := sel [(Element, "a")].
Definition sel_b : builder := sel [(Element, "b")].
Definition sel_c : builder := sel [(Element, "c")].
Definition sel_a_id : builder := sel [(Element, "a"); (Id, "b")].
Definition chain_a_b : builder := fst (cssSelectorBuilder.combine sel_a ">" sel_b).

(* ------------------------------------------------------------------ *)
(** ** Rectangle, getJSON, fromJSON                                     *)

Open Scope Z_scope.
Set Warnings "-register-all".

(** Plain data, the part of a JavaScript value that JSON can carry.
    Numbers are the integers a double holds exactly. *)
Inductive data : Type :=
| Num (z : Z)
| Str (s : string)
| Arr (l : list data)
| Obj (l : list (string * data)).

Definition MAX_SAFE_INTEGER : Z := 2 ^ 53 - 1.

Definition safe (z : Z) : bool := Z.abs z <=? MAX_SAFE_INTEGER.

(** [a * b] on numbers; outside the exactly represented integers the
    product is rounded, which this model does not follow. *)
Definition js_mul (a b : Z) : option data :=
  if safe a && safe b && safe (a * b) then Some (Num (a * b)) else None.

(** A property holds data or a function.  A function is called with its
    receiver, seen through the data properties it can read. *)
Inductive prop : Type :=
| Data (d : data)
| Method (f : (string -> option data) -> option data).

(** An object: own properties in insertion order, and its prototype.  The
    prototype of an object literal, [Object.prototype], carries nothing the
    program reads and is [None]. *)
Inductive object : Type :=
| mkObject (own : list (string * prop)) (proto : option object).

Definition own (o : object) : list (string * prop) :=
  match o with mkObject l _ => l end.

Definition lookup {A} (k : string) (l : list (string * A)) : option A :=
  option_map snd (find (fun p => String.eqb (fst p) k) l).

(** Property access [o.k], through the prototype chain. *)
Fixpoint get (o : object) (k : string) : option prop :=
  match o with
  | mkObject l p =>
      match lookup k l with
      | Some v => Some v
      | None => match p with Some q => get q k | None => None end
      end
  end.

Definition this_of (o : object) : string -> option data :=
  fun k => match get o k with Some (Data d) => Some d | _ => None end.

(** Method call [o.k()]; [None] is the TypeError of calling what is not a
    function, or a result outside the model. *)
Definition call_method (o : object) (k : string) : option data :=
  match get o k with
  | Some (Method f) => f (this_of o)
  | _ => None
  end.

Definition Object_setPrototypeOf (o : object) (proto : object) : object :=
  mkObject (own o) (Some proto).

(** *** The host's JSON object, on integers, strings without escapes,
        arrays and objects *)

Definition dquote : ascii := ascii_of_nat 34.

Definition plain_char (c : ascii) : bool :=
  let n := nat_of_ascii c in
  ((32 <=? n) && (n <=? 126) && negb (n =? 34) && negb (n =? 92))%nat.

Definition quote (s : string) : option string :=
  if forallb plain_char (list_ascii_of_string s)
  then Some (String dquote s ++ String dquote "")%string
  else None.

Definition print_num (z : Z) : option string :=
  if safe z then Some (NilZero.string_of_int (Z.to_int z)) else None.

Fixpoint all {A} (l : list (option A)) : option (list A) :=
  match l with
  | [] => Some []
  | Some a :: r => option_map (cons a) (all r)
  | None :: _ => None
  end.

Fixpoint print (d : data) : option string :=
  match d with
  | Num z => print_num z
  | Str s => quote s
  | Arr l =>
      option_map (fun xs => "[" ++ join "," xs ++ "]")%string (all (map print l))
  | Obj l =>
      option_map (fun xs => "{" ++ join "," xs ++ "}")%string
        (all (map (fun p =>
                     match quote (fst p), print (snd p) with
                     | Some k, Some v => Some (k ++ ":" ++ v)%string
                     | _, _ => None
                     end) l))
  end.

(** [JSON.stringify(o)]: the own properties in insertion order, those
    holding a function left out.  [None] outside the fragment (a key or
    number that is not plain, or an object that has a [toJSON] method). *)
Definition JSON_stringify (o : object) : option string :=
  match get o "toJSON" with
  | Some (Method _) => None
  | _ =>
      option_map (fun xs => "{" ++ join "," xs ++ "}")%string
        (all (flat_map (fun p =>
                          match snd p with
                          | Method _ => []
                          | Data d =>
                              [match quote (fst p), print d with
                               | Some k, Some v => Some (k ++ ":" ++ v)%string
                               | _, _ => None
                               end]
                          end) (own o)))
  end.

Definition is_ws (c : ascii) : bool :=
  let n := nat_of_ascii c in
  ((n =? 32) || (n =? 9) || (n =? 10) || (n =? 13))%nat.

Fixpoint skip_ws (s : list ascii) : list ascii :=
  match s with
  | c :: r => if is_ws c then skip_ws r else s
  | [] => []
  end.

Definition digit_of (c : ascii) : option Z :=
  let n := nat_of_ascii c in
  if ((48 <=? n) && (n <=? 57))%nat then Some (Z.of_nat n - 48) else None.

Fixpoint parse_digits (acc : Z) (s : list ascii) : Z * list ascii :=
  match s with
  | c :: r =>
      match digit_of c with
      | Some d => parse_digits (10 * acc + d) r
      | None => (acc, s)
      end
  | [] => (acc, [])
  end.

(** An integer without leading zeros; a fraction or an exponent is outside
    the fragment, and so is the negative zero. *)
Definition parse_unsigned (s : list ascii) : option (Z * list ascii) :=
  match s with
  | c :: r =>
      match digit_of c with
      | Some d =>
          let '(z, rest) := if d =? 0 then (0, r) else parse_digits d r in
          match rest with
          | c' :: _ =>
              if match digit_of c' with Some _ => true | None => false end
                 || Ascii.eqb c' "." || Ascii.eqb c' "e" || Ascii.eqb c' "E"
              then None else Some (z, rest)
          | [] => Some (z, rest)
          end
      | None => None
      end
  | [] => None
  end.

Definition parse_number (s : list ascii) : option (data * list ascii) :=
  match s with
  | c :: r =>
      if Ascii.eqb c "-" then
        match parse_unsigned r with
        | Some (z, rest) => if (z =? 0) || negb (safe z) then None else Some (Num (- z), rest)
        | None => None
        end
      else
        match parse_unsigned s with
        | Some (z, rest) => if safe z then Some (Num z, rest) else None
        | None => None
        end
  | [] => None
  end.

(** The characters up to the closing quote. *)
Fixpoint parse_string (s : list ascii) : option (string * list ascii) :=
  match s with
  | c :: r =>
      if Ascii.eqb c dquote then Some (EmptyString, r)
      else if plain_char c then
        match parse_string r with
        | Some (k, rest) => Some (String c k, rest)
        | None => None
        end
      else None
  | [] => None
  end.

(** A repeated key keeps its first position and takes the last value. *)
Fixpoint set_member (k : string) (v : data) (l : list (string * data)) : list (string * data) :=
  match l with
  | [] => [(k, v)]
  | (k', v') :: r => if String.eqb k' k then (k, v) :: r else (k', v') :: set_member k v r
  end.

Fixpoint parse_value (fuel : nat) (s : list ascii) {struct fuel} : option (data * list ascii) :=
  match fuel with
  | O => None
  | S f =>
      match skip_ws s with
      | c :: r =>
          if Ascii.eqb c "{" then
            match skip_ws r with
            | c' :: r' => if Ascii.eqb c' "}" then Some (Obj [], r') else parse_members f r []
            | [] => None
            end
          else if Ascii.eqb c "[" then
            match skip_ws r with
            | c' :: r' => if Ascii.eqb c' "]" then Some (Arr [], r') else parse_elements f r []
            | [] => None
            end
          else if Ascii.eqb c dquote then
            match parse_string r with
            | Some (k, rest) => Some (Str k, rest)
            | None => None
            end
          else parse_number (c :: r)
      | [] => None
      end
  end
with parse_members (fuel : nat) (s : list ascii) (acc : list (string * data)) {struct fuel}
  : option (data * list ascii) :=
  match fuel with
  | O => None
  | S f =>
      match skip_ws s with
      | c :: r =>
          if Ascii.eqb c dquote then
            match parse_string r with
            | Some (k, r1) =>
                match skip_ws r1 with
                | c2 :: r2 =>
                    if Ascii.eqb c2 ":" then
                      match parse_value f r2 with
                      | Some (v, r3) =>
                          match skip_ws r3 with
                          | c4 :: r4 =>
                              if Ascii.eqb c4 "," then parse_members f r4 (set_member k v acc)
                              else if Ascii.eqb c4 "}" then Some (Obj (set_member k v acc), r4)
                              else None
                          | [] => None
                          end
                      | None => None
                      end
                    else None
                | [] => None
                end
            | None => None
            end
          else None
      | [] => None
      end
  end
with parse_elements (fuel : nat) (s : list ascii) (acc : list data) {struct fuel}
  : option (data * list ascii) :=
  match fuel with
  | O => None
  | S f =>
      match parse_value f s with
      | Some (v, r1) =>
          match skip_ws r1 with
          | c :: r =>
              if Ascii.eqb c "," then parse_elements f r (acc ++ [v])
              else if Ascii.eqb c "]" then Some (Arr (acc ++ [v]), r)
              else None
          | [] => None
          end
      | None => None
      end
  end.

(** [JSON.parse(text)]; [None] is its SyntaxError, or a text outside the
    fragment. *)
Definition JSON_parse (text : string) : option data :=
  let s := list_ascii_of_string text in
  match parse_value (S (length s)) s with
  | Some (d, rest) => match skip_ws rest with [] => Some d | _ => None end
  | None => None
  end.

(** *** The three functions of the file *)

(** The object literal [{ width, height, getArea() { ... } }]: the method
    is a closure over the two parameters and never reads its receiver. *)
Definition Rectangle (width height : Z) : object :=
  mkObject [("width"%string, Data (Num width));
            ("height"%string, Data (Num height));
            ("getArea"%string, Method (fun _ => js_mul width height))]
           None.

Definition getJSON (obj : object) : option string := JSON_stringify obj.

(** [None] when [JSON.parse] throws or yields something other than an
    object. *)
Definition fromJSON (proto : object) (json : string) : option object :=
  match JSON_parse json with
  | Some (Obj l) =>
      let parsedObject := mkObject (map (fun p => (fst p, Data (snd p))) l) None in
      Some (Object_setPrototypeOf parsedObject proto)
  | _ => None
  end.

(** A method set for rectangles that works from the receiver's fields, as
    a prototype handed to [fromJSON] has to. *)
Definition area_from_receiver (f : (string -> option data) -> option data) : Prop :=
  forall this w h,
    this "width"%string = Some (Num w) ->
    this "height"%string = Some (Num h) ->
    f this = js_mul w h.

Definition RectangleShape : object :=
  mkObject [("getArea"%string,
             Method (fun this =>
                       match this "width"%string, this "height"%string with
                       | Some (Num w), Some (Num h) => js_mul w h
                       | _, _ => None
                       end))]
           None.

Close Scope Z_scope.

(* ------------------------------------------------------------------ *)
(** ** Vocabulary for whole selectors and for numbers in JSON text      *)

(** The facade entry that starts a selector with a part of kind [t]. *)
Definition facade (t : selectorType) (v : string) : builder * outcome unit :=
  match t with
  | Element => cssSelectorBuilder.element v
  | Id => cssSelectorBuilder.id v
  | Class => cssSelectorBuilder.class v
  | Attr => cssSelectorBuilder.attr v
  | PseudoClass => cssSelectorBuilder.pseudoClass v
  | PseudoElement => cssSelectorBuilder.pseudoElement v
  end.

(** The text of a receiver is that of a selector in the grammar of the
    class comment: parts in rank order, no second type, id or
    pseudo-element, and the counters count them. *)
Definition well_formed (this : builder) : Prop :=
  exists l,
    ascending l = true /\
    no_duplicates l = true /\
    value this = concatenation (map canonical l) /\
    forall t, occ (selectorOccurances this) t = parts_of t l.

(** [combine(s, c1, combine(s1, c2, combine(s2, ...)))], the nesting of the
    class comment's last example. *)
Fixpoint nest (s : builder) (rest : list (string * builder)) : builder :=
  match rest with
  | [] => s
  | (c, s') :: rest' => fst (cssSelectorBuilder.combine s c (nest s' rest'))
  end.

(** The texts and combinators of such a nesting, left to right. *)
Fixpoint flat (s : builder) (rest : list (string * builder)) : list string :=
  match rest with
  | [] => [value s]
  | (c, s') :: rest' => value s :: c :: flat s' rest'
  end.

(** The characters [JSON.stringify] writes for an integer. *)
Definition digits_of (z : Z) : list ascii :=
  list_ascii_of_string (NilZero.string_of_int (Z.to_int z)).

(** What may follow a number in a JSON text for it to end there. *)
Definition ends_number (rest : list ascii) : bool :=
  match rest with
  | c :: _ =>
      negb (match digit_of c with Some _ => true | None => false end
            || Ascii.eqb c "." || Ascii.eqb c "e" || Ascii.eqb c "E")
  | [] => true
  end.

(** The value of a row of decimal digits read after [acc]. *)
Fixpoint uint_value (acc : Z) (d : Decimal.uint) : Z :=
  match d with
  | Decimal.Nil => acc
  | Decimal.D0 l => uint_value (10 * acc + 0) l
  | Decimal.D1 l => uint_value (10 * acc + 1) l
  | Decimal.D2 l => uint_value (10 * acc + 2) l
  | Decimal.D3 l => uint_value (10 * acc + 3) l
  | Decimal.D4 l => uint_value (10 * acc + 4) l
  | Decimal.D5 l => uint_value (10 * acc + 5) l
  | Decimal.D6 l => uint_value (10 * acc + 6) l
  | Decimal.D7 l => uint_value (10 * acc + 7) l
  | Decimal.D8 l => uint_value (10 * acc + 8) l
  | Decimal.D9 l => uint_value (10 * acc + 9) l
  end%Z.

(** The data properties of an object, in insertion order: what
    [JSON.stringify] looks at. *)
Definition fields_of (l : list (string * prop)) : list (string * data) :=
  flat_map (fun p => match snd p with
                     | Data d => [(fst p, d)]
                     | Method _ => []
                     end) l.

(** A property whose key needs no escaping and whose value is an integer a
    double holds exactly. *)
Definition integer_field (p : string * data) : bool :=
  forallb plain_char (list_ascii_of_string (fst p))
  && match snd p with Num z => safe z | _ => false end.

(** No key comes twice, as in any JavaScript object. *)
Fixpoint distinct (l : list string) : bool :=
  match l with
  | [] => true
  | k :: r => negb (existsb (String.eqb k) r) && distinct r
  end.

(** No [toJSON] method is in reach of the object. *)
Definition no_toJSON (o : object) : bool :=
  match get o "toJSON" with
  | Some (Method _) => false
  | _ => true
  end.

(** The characters of one member [key:number] of a JSON object, and of
    the members separated by commas. *)
Definition member_chars (p : string * data) : list ascii :=
  dquote :: list_ascii_of_string (fst p)
    ++ dquote :: ":"%char
    :: match snd p with Num z => digits_of z | _ => [] end.

Fixpoint body_chars (l : list (string * data)) : list ascii :=
  match l with
  | [] => []
  | p :: r =>
      match r with
      | [] => member_chars p
      | _ => member_chars p ++ ","%char :: body_chars r
      end
  end.

(* ------------------------------------------------------------------ *)
(** ** What each method does to its receiver                            *)

Open Scope nat_scope.

Lemma append_assoc (a b c : string) : ((a ++ b) ++ c = a ++ (b ++ c))%string.
Proof. induction a as [|x a IH]; simpl; [reflexivity | now rewrite IH]. Qed.

Lemma eqb_eq (a b : selectorType) : selectorType_eqb a b = true <-> a = b.
Proof. destruct a, b; simpl; split; congruence. Qed.

Lemma truthy_num_true (n : nat) : truthy_num n = true <-> n <> 0.
Proof. unfold truthy_num. destruct n; simpl; split; congruence. Qed.

Lemma truthy_num_false (n : nat) : truthy_num n = false <-> n = 0.
Proof. unfold truthy_num. destruct n; simpl; split; congruence. Qed.

Lemma occ_incr_same (o : occurances) (t : selectorType) :
  occ (occ_incr o t) t = occ o t + 1.
Proof. destruct t; reflexivity. Qed.

Lemma occ_incr_other (o : occurances) (t k : selectorType) :
  t <> k -> occ (occ_incr o t) k = occ o k.
Proof. destruct t, k; intros H; try reflexivity; congruence. Qed.

Lemma occ_incr_ge (o : occurances) (t k : selectorType) :
  occ o k <= occ (occ_incr o t) k.
Proof. destruct t, k; simpl; lia. Qed.

Lemma handleNumberOfOccurances_spec (t : selectorType) (this : builder) :
  CssSelectorBuilder.handleNumberOfOccurances t this =
  (this, if truthy_num (occ (selectorOccurances this) t)
         then Thrown DuplicateSelectorPart else Returned tt).
Proof.
  unfold CssSelectorBuilder.handleNumberOfOccurances, bind, read.
  destruct (truthy_num _); reflexivity.
Qed.

Lemma filter_length_existsb {A} (f : A -> bool) (l : list A) :
  negb (Nat.eqb (length (filter f l)) 0) = existsb f l.
Proof.
  induction l as [|x l IH]; simpl; [reflexivity|].
  destruct (f x); simpl; [reflexivity | exact IH].
Qed.

(** The slice scanned by the order check holds exactly the kinds ranked
    after [t]. *)
Lemma slice_after (t : selectorType) (f : selectorType -> bool) :
  existsb f (slice validOrder (indexOf validOrder t + 1)) =
  existsb (fun k => (rank t <? rank k) && f k) validOrder.
Proof.
  destruct t; cbn;
    repeat match goal with |- context [f ?k] => destruct (f k); cbn end;
    reflexivity.
Qed.

Lemma checkSelectorsOrder_spec (t : selectorType) (this : builder) :
  CssSelectorBuilder.checkSelectorsOrder t this =
  (this, if higher_recorded t this then Thrown OrderViolation else Returned tt).
Proof.
  unfold CssSelectorBuilder.checkSelectorsOrder, bind, read, higher_recorded.
  rewrite filter_length_existsb, slice_after.
  destruct (existsb _ _); reflexivity.
Qed.

Lemma higher_recorded_true (t : selectorType) (this : builder) :
  higher_recorded t this = true <->
  exists k, rank t < rank k /\ occ (selectorOccurances this) k <> 0.
Proof.
  unfold higher_recorded. rewrite existsb_exists. split.
  - intros (k & _ & H). apply andb_true_iff in H as [H1 H2].
    exists k. split; [now apply Nat.ltb_lt | now apply truthy_num_true].
  - intros (k & H1 & H2). exists k. split.
    + destruct k; simpl; tauto.
    + apply andb_true_iff. split; [now apply Nat.ltb_lt | now apply truthy_num_true].
Qed.

Lemma higher_recorded_last (this : builder) :
  higher_recorded PseudoElement this = false.
Proof.
  destruct (higher_recorded PseudoElement this) eqn:E; [|reflexivity].
  apply higher_recorded_true in E as (k & H & _).
  destruct k; cbn in H; lia.
Qed.

(** The three ways an appending call can go. *)
Lemma invoke_spec (t : selectorType) (v : string) (this : builder) :
  invoke t v this =
  if capped t && truthy_num (occ (selectorOccurances this) t)
  then (this, Thrown DuplicateSelectorPart)
  else if higher_recorded t this
       then (this, Thrown OrderViolation)
       else (mkBuilder (value this ++ canonical (t, v))
                       (selectorsToCombine this)
                       (occ_incr (selectorOccurances this) t),
             Returned tt).
Proof.
  pose proof (higher_recorded_last this) as Hlast.
  destruct t; cbn [invoke capped andb canonical];
    unfold CssSelectorBuilder.element, CssSelectorBuilder.id, CssSelectorBuilder.class,
      CssSelectorBuilder.attr, CssSelectorBuilder.pseudoClass,
      CssSelectorBuilder.pseudoElement, bind;
    rewrite ?handleNumberOfOccurances_spec, ?checkSelectorsOrder_spec, ?Hlast;
    repeat match goal with
           | |- context [truthy_num ?n] => destruct (truthy_num n)
           | |- context [higher_recorded ?t ?b] => destruct (higher_recorded t b)
           end;
    reflexivity.
Qed.

Lemma stringify_spec (this : builder) :
  CssSelectorBuilder.stringify this =
  (this, Returned (if combined this
                   then join " " (filter truthy_str (selectorsToCombine this))
                   else value this)).
Proof.
  unfold CssSelectorBuilder.stringify, bind, read, combined, truthy_num.
  destruct (negb _); reflexivity.
Qed.

Lemma combine_spec (s1 : builder) (c : string) (s2 : builder) (this : builder) :
  CssSelectorBuilder.combine s1 c s2 this =
  (if combined this then this
   else mkBuilder (value this)
                  (selectorsToCombine this ++ [value s1; c; value s2] ++ selectorsToCombine s2)
                  (selectorOccurances this),
   Returned tt).
Proof.
  unfold CssSelectorBuilder.combine, bind, read, ret, assign, combined, truthy_num.
  destruct (negb _); reflexivity.
Qed.

Lemma invoke_keeps_chain (t : selectorType) (v : string) (this : builder) :
  selectorsToCombine (fst (invoke t v this)) = selectorsToCombine this.
Proof.
  rewrite invoke_spec.
  destruct (capped t && _); [reflexivity|].
  destruct (higher_recorded t this); reflexivity.
Qed.

Lemma perform_counts (c : call) (this : builder) (k : selectorType) :
  occ (selectorOccurances this) k <= occ (selectorOccurances (fst (perform c this))) k.
Proof.
  destruct c as [t v | s1 c s2 |]; cbn [perform].
  - rewrite invoke_spec.
    destruct (capped t && _); [simpl; lia|].
    destruct (higher_recorded t this); [simpl; lia|].
    simpl. apply occ_incr_ge.
  - rewrite combine_spec. destruct (combined this); simpl; lia.
  - unfold bind. rewrite stringify_spec. simpl. lia.
Qed.

Lemma after_calls_counts (l : list call) (this : builder) (k : selectorType) :
  occ (selectorOccurances this) k <= occ (selectorOccurances (after_calls l this)) k.
Proof.
  revert this. induction l as [|c l IH]; intros this; simpl; [lia|].
  etransitivity; [apply (perform_counts c) | apply IH].
Qed.

(** The examples of the class comment. *)
Example example_id_classes :
  rendered (sel [(Id, "main"); (Class, "container"); (Class, "editable")]%string)
  = Returned "#main.container.editable"%string.
Proof. reflexivity. Qed.

Example example_nested_combine :
  rendered
    (fst (cssSelectorBuilder.combine
            (sel [(Element, "div"); (Id, "main"); (Class, "container"); (Class, "draggable")]%string)
            "+"
            (fst (cssSelectorBuilder.combine
                    (sel [(Element, "table"); (Id, "data")]%string)
                    "~"
                    (fst (cssSelectorBuilder.combine
                            (sel [(Element, "tr"); (PseudoClass, "nth-of-type(even)")]%string)
                            " "
                            (sel [(Element, "td"); (PseudoClass, "nth-of-type(even)")]%string)))))))
  = Returned
      "div#main.container.draggable + table#data ~ tr:nth-of-type(even)   td:nth-of-type(even)"%string.
Proof. reflexivity. Qed.

(* ------------------------------------------------------------------ *)
(** ** Errors of the appending methods                                  *)

(** C2, as the specification words it, fails on [element('a').id('b')]
    followed by [element('c')]: an id is recorded, which ranks after the
    type, yet the call throws the duplicate error, because
    [handleNumberOfOccurances] runs before [checkSelectorsOrder]. *)
Lemma order_violation_iff_counterexample :
  ~ (snd (invoke Element "c" sel_a_id) = Thrown OrderViolation <->
     higher_recorded Element sel_a_id = true).
Proof.
  intros [_ H].
  assert (E : snd (invoke Element "c" sel_a_id) = Thrown DuplicateSelectorPart)
    by reflexivity.
  rewrite E in H. specialize (H eq_refl). discriminate.
Qed.

(** C2, amended: an appending call of kind [t] throws the order error
    exactly when a kind ranked strictly after [t] has a non-zero counter and
    the duplicate check has not thrown first, that is, [t] is not capped or
    has not been recorded yet. *)
Theorem order_violation_iff (t : selectorType) (v : string) (this : builder) :
  snd (invoke t v this) = Thrown OrderViolation <->
  higher_recorded t this = true /\
  (capped t = false \/ occ (selectorOccurances this) t = 0).
Proof.
  rewrite invoke_spec.
  destruct (capped t) eqn:Hc; cbn [andb].
  - destruct (truthy_num (occ (selectorOccurances this) t)) eqn:Ht.
    + apply truthy_num_true in Ht. simpl. split; [discriminate|].
      intros [_ [H|H]]; [discriminate | contradiction].
    + apply truthy_num_false in Ht.
      destruct (higher_recorded t this); simpl; split;
        try discriminate; try tauto.
      intros [H _]; discriminate.
  - destruct (higher_recorded t this); simpl; split;
      try discriminate; try tauto.
    intros [H _]; discriminate.
Qed.

Lemma order_violation_iff_witness :
  snd (invoke Element "div" (sel [(Class, "k")])) = Thrown OrderViolation.
Proof.
  apply (proj2 (order_violation_iff Element "div" (sel [(Class, "k")]))).
  split; [reflexivity | right; reflexivity].
Defined.

(** C5: once [element], [id] or [pseudoElement] has returned on a selector,
    calling it again on that selector, whatever was called in between,
    throws the duplicate error; [class], [attr] and [pseudoClass] never throw
    it, and return however often they are repeated on a new selector. *)
Theorem duplicate_on_second_call (t : selectorType) :
  (capped t = true ->
   forall (v v' : string) (between : list call) (this : builder),
     snd (invoke t v this) = Returned tt ->
     snd (invoke t v' (after_calls between (fst (invoke t v this))))
     = Thrown DuplicateSelectorPart) /\
  (capped t = false ->
   (forall b w, snd (invoke t w b) <> Thrown DuplicateSelectorPart) /\
   (forall ws, snd (invokeAll (map (pair t) ws) CssSelectorBuilder.new) = Returned tt)).
Proof.
  split; intros Hc.
  - intros v v' between this Hfirst.
    assert (Hrec : occ (selectorOccurances (fst (invoke t v this))) t <> 0).
    { revert Hfirst. rewrite invoke_spec.
      destruct (capped t && _); [discriminate|].
      destruct (higher_recorded t this); [discriminate|].
      intros _. simpl. rewrite occ_incr_same. lia. }
    pose proof (after_calls_counts between (fst (invoke t v this)) t) as Hmono.
    rewrite (invoke_spec t v'), Hc. cbn [andb].
    replace (truthy_num _) with true; [reflexivity|].
    symmetry. apply truthy_num_true. lia.
  - split.
    + intros b w. rewrite invoke_spec, Hc. cbn [andb].
      destruct (higher_recorded t b); simpl; discriminate.
    + assert (G : forall ws b,
                 (forall k, occ (selectorOccurances b) k <> 0 -> rank k <= rank t) ->
                 snd (invokeAll (map (pair t) ws) b) = Returned tt).
      { induction ws as [|w ws IH]; intros b Hb; [reflexivity|].
        cbn [map invokeAll]. unfold bind.
        rewrite invoke_spec, Hc. cbn [andb].
        destruct (higher_recorded t b) eqn:Hh.
        - apply higher_recorded_true in Hh as (k & Hlt & Hk).
          apply Hb in Hk. lia.
        - apply IH. cbn [selectorOccurances]. intros k Hk.
          destruct (selectorType_eqb t k) eqn:E.
          + apply eqb_eq in E. subst k. lia.
          + apply Hb. rewrite occ_incr_other in Hk; [exact Hk|].
            intros ->. destruct k; discriminate. }
      intros ws. apply G. intros k Hk. destruct k; simpl in Hk; congruence.
Qed.

Lemma duplicate_on_second_call_witness :
  snd (invoke Id "x" (after_calls [Append Class "k"; Stringify]
                        (fst (invoke Id "main" CssSelectorBuilder.new))))
  = Thrown DuplicateSelectorPart /\
  snd (invokeAll (map (pair Class) ["container"; "editable"; "draggable"]%string)
         CssSelectorBuilder.new)
  = Returned tt.
Proof.
  split.
  - apply (proj1 (duplicate_on_second_call Id)); reflexivity.
  - apply (proj2 (duplicate_on_second_call Class)); reflexivity.
Defined.

(** C6: an appending call that throws leaves the receiver as it was, its
    text, its chain and all six counters. *)
Theorem failed_append_keeps_state
  (t : selectorType) (v : string) (this : builder) (e : error)
  (Hthrown : snd (invoke t v this) = Thrown e) :
  fst (invoke t v this) = this.
Proof.
  revert Hthrown. rewrite invoke_spec.
  destruct (capped t && _); [reflexivity|].
  destruct (higher_recorded t this); [reflexivity | discriminate].
Qed.

Lemma failed_append_keeps_state_witness :
  fst (invoke Element "c" sel_a_id) = sel_a_id.
Proof.
  apply (failed_append_keeps_state Element "c" sel_a_id DuplicateSelectorPart).
  reflexivity.
Defined.

(* ------------------------------------------------------------------ *)
(** ** Rendering of a compound selector                                 *)

Lemma parts_of_cons (k t : selectorType) (v : string) (r : list (selectorType * string)) :
  parts_of k ((t, v) :: r) = (if selectorType_eqb t k then 1 else 0) + parts_of k r.
Proof. unfold parts_of. simpl. destruct (selectorType_eqb t k); reflexivity. Qed.

Lemma no_duplicates_spec (l : list (selectorType * string)) :
  no_duplicates l = true <-> forall t, capped t = true -> parts_of t l <= 1.
Proof.
  unfold no_duplicates. rewrite forallb_forall. split.
  - intros H t Ht. specialize (H t). rewrite Ht in H. simpl in H.
    apply Nat.leb_le, H. destruct t; simpl; tauto.
  - intros H t _. destruct (capped t) eqn:Ht; [|reflexivity].
    simpl. apply Nat.leb_le, H, Ht.
Qed.

(** A chain of appends goes through when the receiver has recorded nothing
    ranked after the first kind to come, and has room for the capped kinds
    still to come. *)
Lemma invokeAll_ascending (l : list (selectorType * string)) :
  forall this,
    ascending l = true ->
    (forall k, capped k = true -> occ (selectorOccurances this) k + parts_of k l <= 1) ->
    (forall k t v, occ (selectorOccurances this) k <> 0 ->
                   hd_error l = Some (t, v) -> rank k <= rank t) ->
    snd (invokeAll l this) = Returned tt /\
    value (fst (invokeAll l this)) = (value this ++ concatenation (map canonical l))%string /\
    selectorsToCombine (fst (invokeAll l this)) = selectorsToCombine this.
Proof.
  induction l as [|[t v] r IH]; intros this Hasc Hcap Hord.
  - cbn. repeat split. induction (value this) as [|x s IHs]; simpl; congruence.
  - cbn [invokeAll]. unfold bind. rewrite invoke_spec.
    assert (Hd : capped t && truthy_num (occ (selectorOccurances this) t) = false).
    { destruct (capped t) eqn:Hc; [|reflexivity]. simpl.
      apply truthy_num_false. specialize (Hcap t Hc).
      rewrite parts_of_cons in Hcap.
      replace (selectorType_eqb t t) with true in Hcap by (destruct t; reflexivity).
      lia. }
    assert (Hh : higher_recorded t this = false).
    { destruct (higher_recorded t this) eqn:E; [|reflexivity].
      apply higher_recorded_true in E as (k & Hlt & Hk).
      specialize (Hord k t v Hk eq_refl). lia. }
    rewrite Hd, Hh.
    set (this' := mkBuilder _ _ _).
    destruct (IH this') as (H1 & H2 & H3).
    + destruct r as [|[t' w] r']; [reflexivity|].
      cbn [ascending] in Hasc. apply andb_true_iff in Hasc. tauto.
    + intros k Hk. specialize (Hcap k Hk). rewrite parts_of_cons in Hcap.
      subst this'. cbn [selectorOccurances].
      destruct (selectorType_eqb t k) eqn:E.
      * apply eqb_eq in E. subst k. rewrite occ_incr_same. lia.
      * rewrite occ_incr_other; [lia|]. intros ->. destruct k; discriminate.
    + intros k t' w Hk Hhd. destruct r as [|[t'' w'] r']; [discriminate|].
      cbn in Hhd. injection Hhd as -> ->.
      cbn [ascending] in Hasc. apply andb_true_iff in Hasc as [Hle _].
      apply Nat.leb_le in Hle.
      subst this'. cbn [selectorOccurances] in Hk.
      destruct (selectorType_eqb t k) eqn:E.
      * apply eqb_eq in E. subst k. exact Hle.
      * rewrite occ_incr_other in Hk by (intros ->; destruct k; discriminate).
        specialize (Hord k t v Hk eq_refl). lia.
    + rewrite H1, H2, H3. subst this'. cbn [value selectorsToCombine map concatenation fold_right].
      repeat split. now rewrite append_assoc.
Qed.

(** C3: on a new selector, appends in non-decreasing rank order with no
    second type, id or pseudo-element all return, and [stringify()] then
    returns the canonical renderings of the parts one after the other, in
    call order. *)
Theorem ascending_chain_renders (l : list (selectorType * string))
  (Hasc : ascending l = true) (Hdup : no_duplicates l = true) :
  snd (invokeAll l CssSelectorBuilder.new) = Returned tt /\
  rendered (fst (invokeAll l CssSelectorBuilder.new))
  = Returned (concatenation (map canonical l)).
Proof.
  destruct (invokeAll_ascending l CssSelectorBuilder.new Hasc) as (H1 & H2 & H3).
  - intros k Hk. apply no_duplicates_spec with (t := k) in Hdup; [|exact Hk].
    destruct k; simpl; exact Hdup.
  - intros k t v Hk. destruct k; simpl in Hk; congruence.
  - split; [exact H1|].
    unfold rendered. rewrite stringify_spec. unfold combined.
    rewrite H3, H2. reflexivity.
Qed.

Lemma ascending_chain_renders_witness :
  rendered (fst (invokeAll [(Element, "a"); (Attr, "href$=.png"); (PseudoClass, "focus")]%string
                   CssSelectorBuilder.new))
  = Returned "a[href$=.png]:focus"%string.
Proof.
  apply (ascending_chain_renders
           [(Element, "a"); (Attr, "href$=.png"); (PseudoClass, "focus")]%string);
    reflexivity.
Defined.

(** C8: [stringify()] returns its receiver untouched, and any number of
    successive calls return the same string. *)
Theorem stringify_stable (this : builder) :
  exists s,
    CssSelectorBuilder.stringify this = (this, Returned s) /\
    forall n, stringifyTimes n this = (this, Returned (repeat s n)).
Proof.
  eexists. split; [apply stringify_spec|].
  induction n as [|n IH]; [reflexivity|].
  cbn [stringifyTimes repeat]. unfold bind at 1.
  rewrite stringify_spec. unfold bind at 1. rewrite IH. reflexivity.
Qed.

(* ------------------------------------------------------------------ *)
(** ** Combined selectors                                               *)

(** C4: on a receiver that already holds a chain, [combine] changes
    nothing and returns the receiver, so its rendering stays what the first
    [combine] made it. *)
Theorem second_combine_ignored
  (this selector1 : builder) (combinator : string) (selector2 : builder)
  (Hchain : combined this = true) :
  CssSelectorBuilder.combine selector1 combinator selector2 this = (this, Returned tt) /\
  rendered (fst (CssSelectorBuilder.combine selector1 combinator selector2 this))
  = rendered this.
Proof.
  rewrite combine_spec, Hchain. split; reflexivity.
Qed.

Lemma second_combine_ignored_witness :
  CssSelectorBuilder.combine sel_c "~" sel_a chain_a_b = (chain_a_b, Returned tt) /\
  rendered (fst (CssSelectorBuilder.combine sel_c "~" sel_a chain_a_b))
  = rendered chain_a_b.
Proof.
  apply (second_combine_ignored chain_a_b sel_c "~" sel_a). reflexivity.
Defined.

(** C10: on a receiver that holds a chain, an appending call that returns
    records the part (text and counter) but the rendering stays the chain. *)
Theorem append_after_combine_hidden
  (t : selectorType) (v : string) (this : builder)
  (Hchain : combined this = true)
  (Hreturned : snd (invoke t v this) = Returned tt) :
  rendered (fst (invoke t v this)) = rendered this /\
  value (fst (invoke t v this)) = (value this ++ canonical (t, v))%string /\
  occ (selectorOccurances (fst (invoke t v this))) t
  = occ (selectorOccurances this) t + 1.
Proof.
  split.
  - unfold rendered. rewrite !stringify_spec. unfold combined in *.
    rewrite invoke_keeps_chain, Hchain. reflexivity.
  - revert Hreturned. rewrite invoke_spec.
    destruct (capped t && _); [discriminate|].
    destruct (higher_recorded t this); [discriminate|].
    intros _. simpl. split; [reflexivity | apply occ_incr_same].
Qed.

Lemma append_after_combine_hidden_witness :
  rendered (fst (invoke Class "x" chain_a_b)) = rendered chain_a_b /\
  value (fst (invoke Class "x" chain_a_b)) = ".x"%string /\
  occ (selectorOccurances (fst (invoke Class "x" chain_a_b))) Class = 1.
Proof.
  apply (append_after_combine_hidden Class "x" chain_a_b); reflexivity.
Defined.

(** What the facade's [combine] builds: the chain takes the left
    argument's text, never its chain. *)
Lemma facade_combine_spec (l : builder) (c : string) (r : builder) :
  cssSelectorBuilder.combine l c r =
  (mkBuilder "" ([value l; c; value r] ++ selectorsToCombine r)
             (mkOccurances 0 0 0 0 0 0),
   Returned tt).
Proof.
  unfold cssSelectorBuilder.combine. rewrite combine_spec. reflexivity.
Qed.

(** C1 fails on the code.  [combine(combine(a, '>', b), '+', c)] renders as
    [+ c]: the left argument's chain [a > b] is gone, because [combine]
    reads [selector1.value] only, while for [selector2] it also spreads
    [selector2.selectorsToCombine]. *)
Theorem left_chain_dropped :
  rendered chain_a_b = Returned "a > b"%string /\
  rendered (fst (cssSelectorBuilder.combine chain_a_b "+" sel_c)) = Returned "+ c"%string /\
  starts_with "a > b" "+ c" = false.
Proof. repeat split. Qed.

(** The same for every left argument the facade's [combine] produced: its
    chain has no part in the result. *)
Lemma left_chain_never_read (l1 l2 : builder) (c1 c : string) (r1 r : builder) :
  rendered (fst (cssSelectorBuilder.combine (fst (cssSelectorBuilder.combine l1 c1 r1)) c r))
  = rendered (fst (cssSelectorBuilder.combine CssSelectorBuilder.new c r)).
Proof.
  rewrite !facade_combine_spec. reflexivity.
Qed.

(** C9, as stated, fails for the empty string: [combine(a, '', b)] renders
    as [a b], the empty segment being filtered out, where the three
    segments joined by single spaces have two spaces between a and b. *)
Lemma combinator_verbatim_counterexample :
  ~ combinator_verbatim sel_a "" sel_b.
Proof.
  intros (sl & sr & Hl & Hr & _ & H).
  compute in Hl, Hr, H.
  injection Hl as <-. injection Hr as <-. discriminate H.
Qed.

Lemma join_three (a b : string) (fs : list string) :
  fs <> [] -> join " " (a :: b :: fs) = join " " [a; b; join " " fs].
Proof.
  intros H. destruct fs as [|x fs]; [congruence|]. reflexivity.
Qed.

(** C9, amended: for every string, the facade's [combine] returns and
    stores the string as it is between the two arguments' texts; when the
    string is not empty, the left argument is a non-empty selector without a
    chain and the right one is such a selector or a chain made by
    [combine], the rendering is the left rendering, the string and the right
    rendering joined by single spaces. *)
Theorem combinator_stored_verbatim (l : builder) (c : string) (r : builder) :
  (snd (cssSelectorBuilder.combine l c r) = Returned tt /\
   selectorsToCombine (fst (cssSelectorBuilder.combine l c r))
   = ([value l; c; value r] ++ selectorsToCombine r)%list) /\
  (truthy_str c = true ->
   compound l = true ->
   compound r || chain_only r = true ->
   combinator_verbatim l c r).
Proof.
  split; [rewrite facade_combine_spec; split; reflexivity|].
  intros Hc Hl Hr. unfold combinator_verbatim, rendered.
  rewrite facade_combine_spec, !stringify_spec.
  do 2 eexists. repeat split.
  cbn [fst snd].
  unfold compound in Hl. apply andb_true_iff in Hl as [Hl1 Hl2].
  apply negb_true_iff in Hl1. rewrite Hl1.
  unfold combined at 1. cbn [selectorsToCombine app length truthy_num Nat.eqb negb filter].
  rewrite Hl2, Hc. f_equal.
  apply orb_true_iff in Hr as [Hr|Hr].
  - unfold compound in Hr. apply andb_true_iff in Hr as [Hr1 Hr2].
    apply negb_true_iff in Hr1. rewrite Hr1, Hr2.
    unfold combined in Hr1. apply truthy_num_false in Hr1.
    destruct (selectorsToCombine r); [reflexivity | discriminate].
  - unfold chain_only in Hr. apply andb_true_iff in Hr as [Hr1 Hr2].
    apply negb_true_iff in Hr1. rewrite Hr1.
    assert (Hne : filter truthy_str (selectorsToCombine r) <> []).
    { apply existsb_exists in Hr2 as (x & Hin & Hx). intros E.
      assert (Hf : In x (filter truthy_str (selectorsToCombine r)))
        by (apply filter_In; split; assumption).
      rewrite E in Hf. exact Hf. }
    replace (combined r) with true.
    + apply join_three, Hne.
    + symmetry. unfold combined. apply truthy_num_true.
      destruct (selectorsToCombine r); [now contradiction Hne | discriminate].
Qed.

Lemma combinator_stored_verbatim_witness :
  combinator_verbatim sel_a "$$" chain_a_b.
Proof.
  apply (proj2 (combinator_stored_verbatim sel_a "$$" chain_a_b)); reflexivity.
Defined.

(* ------------------------------------------------------------------ *)
(** ** Rectangle through JSON and back                                  *)

(** The text [getJSON] produces for the rectangle: the two numbers, the
    method left out. *)
Lemma getJSON_Rectangle_10_20 :
  getJSON (Rectangle 10 20)
  = Some ("{" ++ String dquote "width" ++ String dquote ":10,"
              ++ String dquote "height" ++ String dquote ":20}")%string.
Proof. reflexivity. Qed.

(** C7: the text [getJSON] gives for [Rectangle(10, 20)] is read back by
    [fromJSON] as an object whose own [width] is 10 and own [height] is 20,
    and when the prototype handed to [fromJSON] carries a [getArea] that
    multiplies the receiver's two fields, calling it on the result gives
    200. *)
Theorem rectangle_json_roundtrip
  (proto : object) (f : (string -> option data) -> option data)
  (Hshape : get proto "getArea" = Some (Method f))
  (Harea : area_from_receiver f) :
  exists json o,
    getJSON (Rectangle 10 20) = Some json /\
    fromJSON proto json = Some o /\
    lookup "width" (own o) = Some (Data (Num 10)) /\
    lookup "height" (own o) = Some (Data (Num 20)) /\
    call_method o "getArea" = Some (Num 200).
Proof.
  eexists. eexists. split; [reflexivity|]. split; [reflexivity|].
  split; [reflexivity|]. split; [reflexivity|].
  unfold call_method. cbn [Object_setPrototypeOf own get lookup find map fst snd
                            String.eqb Ascii.eqb Bool.eqb option_map].
  rewrite Hshape. apply (Harea _ 10%Z 20%Z); reflexivity.
Qed.

Lemma rectangle_json_roundtrip_witness :
  exists json o,
    getJSON (Rectangle 10 20) = Some json /\
    fromJSON RectangleShape json = Some o /\
    lookup "width" (own o) = Some (Data (Num 10)) /\
    lookup "height" (own o) = Some (Data (Num 20)) /\
    call_method o "getArea" = Some (Num 200).
Proof.
  apply (rectangle_json_roundtrip RectangleShape
           (fun this =>
              match this "width"%string, this "height"%string with
              | Some (Num w), Some (Num h) => js_mul w h
              | _, _ => None
              end)).
  - reflexivity.
  - intros this w h Hw Hh. rewrite Hw, Hh. reflexivity.
Defined.

(** The rectangle itself can serve as the prototype: its [getArea] is a
    closure over 10 and 20. *)
Lemma rectangle_as_prototype :
  exists json o,
    getJSON (Rectangle 10 20) = Some json /\
    fromJSON (Rectangle 10 20) json = Some o /\
    call_method o "getArea" = Some (Num 200).
Proof. do 2 eexists. repeat split. Qed.

(** Without a method set there is nothing to call. *)
Lemma rectangle_without_shape :
  exists json o,
    getJSON (Rectangle 10 20) = Some json /\
    fromJSON (mkObject [] None) json = Some o /\
    call_method o "getArea" = None.
Proof. do 2 eexists. repeat split. Qed.

(* ------------------------------------------------------------------ *)
(** ** Which call sequences a selector accepts                          *)

Lemma eqb_refl (t : selectorType) : selectorType_eqb t t = true.
Proof. destruct t; reflexivity. Qed.

Lemma eqb_neq (t k : selectorType) : selectorType_eqb t k = false -> t <> k.
Proof. intros H ->. rewrite eqb_refl in H. discriminate. Qed.

Lemma invoke_returned (t : selectorType) (v : string) (this : builder) :
  snd (invoke t v this) = Returned tt ->
  capped t && truthy_num (occ (selectorOccurances this) t) = false /\
  higher_recorded t this = false /\
  fst (invoke t v this)
  = mkBuilder (value this ++ canonical (t, v)) (selectorsToCombine this)
              (occ_incr (selectorOccurances this) t).
Proof.
  rewrite invoke_spec.
  destruct (capped t && _); [discriminate|].
  destruct (higher_recorded t this); [discriminate|].
  repeat split.
Qed.

Lemma not_higher_recorded (t k : selectorType) (this : builder) :
  higher_recorded t this = false ->
  occ (selectorOccurances this) k <> 0 -> rank k <= rank t.
Proof.
  intros Hh Hk. destruct (le_lt_dec (rank k) (rank t)) as [H|H]; [exact H|].
  assert (E : higher_recorded t this = true)
    by (apply higher_recorded_true; exists k; split; assumption).
  congruence.
Qed.

(** What a chain of appends that went through says about the chain and
    about the receiver it started from. *)
Lemma invokeAll_returned (l : list (selectorType * string)) :
  forall this,
    snd (invokeAll l this) = Returned tt ->
    ascending l = true /\
    (forall k, capped k = true -> occ (selectorOccurances this) k <> 0 -> parts_of k l = 0) /\
    (forall k, capped k = true -> parts_of k l <= 1) /\
    (forall k t v, occ (selectorOccurances this) k <> 0 ->
                   hd_error l = Some (t, v) -> rank k <= rank t).
Proof.
  induction l as [|[t v] r IH]; intros this Hret.
  - repeat split; intros; try reflexivity; try discriminate. cbn. lia.
  - cbn [invokeAll] in Hret. unfold bind in Hret.
    destruct (invoke t v this) as [this' [[]|e]] eqn:Hinv; [|discriminate].
    pose proof (invoke_returned t v this) as Hone.
    rewrite Hinv in Hone. cbn [fst snd] in Hone.
    destruct (Hone eq_refl) as (Hdup & Hhigh & Hthis'). clear Hone.
    destruct (IH this' Hret) as (Hasc & Hzero & Hone & Hhd).
    assert (Hrec : forall k, occ (selectorOccurances this) k <> 0 ->
                             occ (selectorOccurances this') k <> 0).
    { intros k Hk. subst this'. cbn [selectorOccurances].
      pose proof (occ_incr_ge (selectorOccurances this) t k). lia. }
    assert (Ht : occ (selectorOccurances this') t <> 0).
    { subst this'. cbn [selectorOccurances]. rewrite occ_incr_same. lia. }
    repeat split.
    + destruct r as [|[t' w] r']; [reflexivity|].
      change (ascending ((t, v) :: (t', w) :: r'))
        with ((rank t <=? rank t') && ascending ((t', w) :: r')).
      rewrite Hasc, andb_true_r.
      apply Nat.leb_le. apply (Hhd t t' w Ht eq_refl).
    + intros k Hk Hocc. rewrite parts_of_cons.
      destruct (selectorType_eqb t k) eqn:E.
      * apply eqb_eq in E. subst k. rewrite Hk in Hdup. cbn [andb] in Hdup.
        apply truthy_num_false in Hdup. contradiction.
      * cbn. apply Hzero; [exact Hk | apply Hrec, Hocc].
    + intros k Hk. rewrite parts_of_cons.
      destruct (selectorType_eqb t k) eqn:E.
      * apply eqb_eq in E. subst k. rewrite (Hzero t Hk Ht). lia.
      * cbn. apply Hone, Hk.
    + intros k t' w Hk Hhead. cbn in Hhead. injection Hhead as <- <-.
      apply (not_higher_recorded t k this Hhigh Hk).
Qed.

(** X1: a chain of appends on a new selector goes through exactly when its
    kinds are in non-decreasing rank order and no type, id or
    pseudo-element comes twice. *)
Theorem accepted_iff_ascending (l : list (selectorType * string)) :
  snd (invokeAll l CssSelectorBuilder.new) = Returned tt <->
  ascending l = true /\ no_duplicates l = true.
Proof.
  split.
  - intros H. apply invokeAll_returned in H as (Hasc & _ & Hone & _).
    split; [exact Hasc | apply no_duplicates_spec, Hone].
  - intros [Hasc Hdup].
    apply (invokeAll_ascending l CssSelectorBuilder.new Hasc).
    + intros k Hk. apply no_duplicates_spec with (t := k) in Hdup; [|exact Hk].
      destruct k; simpl; exact Hdup.
    + intros k t v Hk. destruct k; simpl in Hk; congruence.
Qed.

Lemma accepted_iff_ascending_witness :
  snd (invokeAll [(Id, "main"); (Class, "a"); (Class, "b"); (PseudoElement, "after")]%string
         CssSelectorBuilder.new) = Returned tt.
Proof.
  apply (proj2 (accepted_iff_ascending
                  [(Id, "main"); (Class, "a"); (Class, "b"); (PseudoElement, "after")]%string)).
  split; reflexivity.
Defined.

(** X3: once [pseudoElement] has returned on a selector, every later
    appending call on it throws, whatever was called in between. *)
Theorem pseudoElement_closes
  (v : string) (this : builder) (between : list call) (t : selectorType) (w : string)
  (Hreturned : snd (invoke PseudoElement v this) = Returned tt) :
  exists e,
    snd (invoke t w (after_calls between (fst (invoke PseudoElement v this)))) = Thrown e.
Proof.
  apply invoke_returned in Hreturned as (_ & _ & Hthis').
  set (b := after_calls between _).
  assert (Hb : occ (selectorOccurances b) PseudoElement <> 0).
  { pose proof (after_calls_counts between (fst (invoke PseudoElement v this)) PseudoElement) as H.
    fold b in H. rewrite Hthis' in H. cbn [selectorOccurances] in H.
    rewrite occ_incr_same in H. lia. }
  rewrite invoke_spec.
  destruct (capped t && _) eqn:Hd; [eexists; reflexivity|].
  destruct (higher_recorded t b) eqn:Hh; [eexists; reflexivity|].
  exfalso. destruct t;
    try (pose proof (not_higher_recorded _ PseudoElement b Hh Hb) as Hle; cbn in Hle; lia).
  cbn [capped andb] in Hd. apply truthy_num_false in Hd. contradiction.
Qed.

Lemma pseudoElement_closes_witness :
  exists e,
    snd (invoke Class "x"
           (after_calls [Stringify]
              (fst (invoke PseudoElement "after" sel_a)))) = Thrown e.
Proof.
  apply (pseudoElement_closes "after" sel_a [Stringify] Class "x"). reflexivity.
Defined.

(* ------------------------------------------------------------------ *)
(** ** What a selector can hold after any history of calls              *)

Lemma append_empty_r (s : string) : (s ++ "")%string = s.
Proof. induction s as [|c s IH]; simpl; congruence. Qed.

Lemma concatenation_app (a b : list string) :
  concatenation (a ++ b) = (concatenation a ++ concatenation b)%string.
Proof.
  induction a as [|x a IH]; simpl; [reflexivity|].
  now rewrite IH, append_assoc.
Qed.

Lemma parts_of_snoc (k t : selectorType) (v : string) (l : list (selectorType * string)) :
  parts_of k (l ++ [(t, v)]) = parts_of k l + (if selectorType_eqb t k then 1 else 0).
Proof.
  unfold parts_of. rewrite filter_app, length_app. simpl.
  destruct (selectorType_eqb t k); reflexivity.
Qed.

Lemma parts_of_In (p : selectorType * string) (l : list (selectorType * string)) :
  In p l -> parts_of (fst p) l <> 0.
Proof.
  intros H. unfold parts_of.
  assert (Hf : In p (filter (fun q => selectorType_eqb (fst q) (fst p)) l))
    by (apply filter_In; split; [exact H | apply eqb_refl]).
  destruct (filter _ l); [contradiction | discriminate].
Qed.

Lemma ascending_snoc (t : selectorType) (v : string) (l : list (selectorType * string)) :
  ascending l = true ->
  (forall p, In p l -> rank (fst p) <= rank t) ->
  ascending (l ++ [(t, v)]) = true.
Proof.
  induction l as [|[a x] r IH]; intros Hasc Hle; [reflexivity|].
  destruct r as [|[b y] r'].
  - cbn. rewrite andb_true_r. apply Nat.leb_le.
    apply (Hle (a, x)). now left.
  - change (ascending (((a, x) :: (b, y) :: r') ++ [(t, v)]))
      with ((rank a <=? rank b) && ascending (((b, y) :: r') ++ [(t, v)])).
    change (ascending ((a, x) :: (b, y) :: r'))
      with ((rank a <=? rank b) && ascending ((b, y) :: r')) in Hasc.
    apply andb_true_iff in Hasc as [H1 H2]. rewrite H1. cbn [andb].
    apply IH; [exact H2|]. intros p Hp. apply Hle. now right.
Qed.

Lemma perform_well_formed (c : call) (this : builder) :
  well_formed this -> well_formed (fst (perform c this)).
Proof.
  intros Hwf. destruct c as [t v | s1 c s2 |]; cbn [perform].
  - rewrite invoke_spec.
    destruct (capped t && _) eqn:Hd; [exact Hwf|].
    destruct (higher_recorded t this) eqn:Hh; [exact Hwf|].
    destruct Hwf as (l & Hasc & Hdup & Hval & Hocc).
    exists (l ++ [(t, v)])%list. cbn [fst value selectorOccurances]. repeat split.
    + apply ascending_snoc; [exact Hasc|].
      intros p Hp. apply (not_higher_recorded t (fst p) this Hh).
      rewrite Hocc. apply parts_of_In, Hp.
    + apply no_duplicates_spec. intros k Hk. rewrite parts_of_snoc.
      destruct (selectorType_eqb t k) eqn:E.
      * apply eqb_eq in E. subst k. rewrite Hk in Hd. cbn [andb] in Hd.
        apply truthy_num_false in Hd. rewrite <- Hocc, Hd. lia.
      * rewrite Nat.add_0_r.
        apply (proj1 (no_duplicates_spec l) Hdup k Hk).
    + rewrite map_app, concatenation_app, Hval. cbn [map concatenation fold_right].
      now rewrite append_empty_r.
    + intros k. rewrite parts_of_snoc, <- Hocc.
      destruct (selectorType_eqb t k) eqn:E.
      * apply eqb_eq in E. subst k. apply occ_incr_same.
      * rewrite Nat.add_0_r. apply occ_incr_other, eqb_neq, E.
  - rewrite combine_spec. destruct (combined this); [exact Hwf|].
    destruct Hwf as (l & H). exists l. exact H.
  - unfold bind. rewrite stringify_spec. exact Hwf.
Qed.

(** X2: whatever calls were made on a selector since the facade created
    it, returned or thrown, its text is the canonical rendering of parts in
    rank order without a second type, id or pseudo-element, its counters
    count those parts, and the three capped counters are at most 1. *)
Theorem reachable_well_formed (calls : list call) :
  well_formed (after_calls calls CssSelectorBuilder.new) /\
  n_element (selectorOccurances (after_calls calls CssSelectorBuilder.new)) <= 1 /\
  n_id (selectorOccurances (after_calls calls CssSelectorBuilder.new)) <= 1 /\
  n_pseudoElement (selectorOccurances (after_calls calls CssSelectorBuilder.new)) <= 1.
Proof.
  assert (Hwf : well_formed (after_calls calls CssSelectorBuilder.new)).
  { assert (G : forall this, well_formed this -> well_formed (after_calls calls this)).
    { induction calls as [|c calls IH]; intros this H; [exact H|].
      cbn [after_calls fold_left]. apply IH, perform_well_formed, H. }
    apply G. exists []. repeat split. intros t. destruct t; reflexivity. }
  split; [exact Hwf|].
  destruct Hwf as (l & _ & Hdup & _ & Hocc).
  pose proof (proj1 (no_duplicates_spec l) Hdup) as Hone.
  pose proof (Hocc Element) as He. pose proof (Hocc Id) as Hi.
  pose proof (Hocc PseudoElement) as Hp. cbn [occ] in He, Hi, Hp.
  rewrite He, Hi, Hp.
  repeat split; apply Hone; reflexivity.
Qed.

(** X4: every entry of the facade returns, and the selector it hands back
    renders as the canonical text of that one part and has counted it
    once. *)
Theorem facade_starts_selector (t : selectorType) (v : string) :
  snd (facade t v) = Returned tt /\
  rendered (fst (facade t v)) = Returned (canonical (t, v)) /\
  forall k, occ (selectorOccurances (fst (facade t v))) k
            = if selectorType_eqb t k then 1 else 0.
Proof.
  destruct t; repeat split; intros k; destruct k; reflexivity.
Qed.

(* ------------------------------------------------------------------ *)
(** ** Selectors nested to the right                                    *)

Lemma compound_fields (s : builder) :
  compound s = true -> selectorsToCombine s = [] /\ truthy_str (value s) = true.
Proof.
  unfold compound, combined. intros H. apply andb_true_iff in H as [H1 H2].
  apply negb_true_iff, truthy_num_false in H1.
  split; [|exact H2]. destruct (selectorsToCombine s); [reflexivity | discriminate].
Qed.

Lemma nest_segments (rest : list (string * builder)) :
  forall s,
    compound s = true ->
    forallb (fun p => truthy_str (fst p) && compound (snd p)) rest = true ->
    filter truthy_str (value (nest s rest) :: selectorsToCombine (nest s rest))
    = flat s rest.
Proof.
  induction rest as [|[c s'] rest IH]; intros s Hs Hrest.
  - apply compound_fields in Hs as [H1 H2]. cbn [nest flat]. rewrite H1.
    cbn [filter]. now rewrite H2.
  - cbn [forallb fst snd] in Hrest.
    apply andb_true_iff in Hrest as [Hc Hrest].
    apply andb_true_iff in Hc as [Hc Hs'].
    cbn [nest flat]. rewrite facade_combine_spec.
    cbn [fst value selectorsToCombine app filter truthy_str].
    apply compound_fields in Hs as [_ H2]. rewrite H2, Hc.
    do 2 f_equal. apply (IH s' Hs' Hrest).
Qed.

(** X5: nesting [combine] to the right over non-empty selectors without a
    chain, with non-empty combinators, renders all the texts and
    combinators left to right, joined by single spaces. *)
Theorem nested_combine_flattens (s : builder) (rest : list (string * builder))
  (Hs : compound s = true)
  (Hrest : forallb (fun p => truthy_str (fst p) && compound (snd p)) rest = true) :
  rendered (nest s rest) = Returned (join " " (flat s rest)).
Proof.
  pose proof (nest_segments rest s Hs Hrest) as Hseg.
  unfold rendered. rewrite stringify_spec. cbn [snd]. f_equal.
  destruct rest as [|[c s'] rest].
  - cbn [nest flat]. apply compound_fields in Hs as [H1 H2].
    unfold combined. rewrite H1. reflexivity.
  - cbn [nest] in *. rewrite facade_combine_spec in *.
    cbn [fst value selectorsToCombine] in *.
    cbn [filter truthy_str] in Hseg. rewrite <- Hseg. reflexivity.
Qed.

Lemma nested_combine_flattens_witness :
  rendered (nest sel_a [(">", sel_b); ("~", sel_c); ("+", sel_a_id)]%string)
  = Returned "a > b ~ c + a#b"%string.
Proof.
  apply (nested_combine_flattens sel_a [(">", sel_b); ("~", sel_c); ("+", sel_a_id)]%string);
    reflexivity.
Defined.

(* ------------------------------------------------------------------ *)
(** ** Integers through JSON text                                       *)

Lemma parse_digits_uint (d : Decimal.uint) :
  forall acc rest,
    ends_number rest = true ->
    parse_digits acc (list_ascii_of_string (NilEmpty.string_of_uint d) ++ rest)
    = (uint_value acc d, rest).
Proof.
  induction d; intros acc rest Hrest;
    try (cbn [NilEmpty.string_of_uint list_ascii_of_string app parse_digits uint_value];
         change (digit_of "0") with (Some 0%Z);
         change (digit_of "1") with (Some 1%Z);
         change (digit_of "2") with (Some 2%Z);
         change (digit_of "3") with (Some 3%Z);
         change (digit_of "4") with (Some 4%Z);
         change (digit_of "5") with (Some 5%Z);
         change (digit_of "6") with (Some 6%Z);
         change (digit_of "7") with (Some 7%Z);
         change (digit_of "8") with (Some 8%Z);
         change (digit_of "9") with (Some 9%Z);
         cbv iota; apply IHd, Hrest).
  cbn [NilEmpty.string_of_uint list_ascii_of_string app uint_value].
  destruct rest as [|c rest]; [reflexivity|].
  cbn [parse_digits]. cbn [ends_number] in Hrest.
  destruct (digit_of c); [discriminate | reflexivity].
Qed.

Lemma uint_value_pos (d : Decimal.uint) :
  forall acc, uint_value (Zpos acc) d = Zpos (Pos.of_uint_acc d acc).
Proof.
  induction d; intros acc; cbn [uint_value Pos.of_uint_acc];
    [reflexivity | rewrite <- IHd; f_equal; lia ..].
Qed.

Lemma to_uint_no_leading_zero (p : positive) (l : Decimal.uint) :
  Pos.to_uint p <> Decimal.D0 l.
Proof.
  intros E.
  pose proof (DecimalPos.Unsigned.to_of (Pos.to_uint p)) as H.
  rewrite DecimalPos.Unsigned.of_to in H.
  change (N.to_uint (Npos p)) with (Pos.to_uint p) in H.
  rewrite E in H. rewrite DecimalFacts.unorm_D0 in H.
  destruct (Decimal.nzhead l) eqn:Hl;
    try (rewrite DecimalFacts.unorm_nzhead in H by (rewrite Hl; discriminate);
         symmetry in H; apply (DecimalFacts.nzhead_nonzero _ _ H)).
  unfold Decimal.unorm in H. rewrite Hl in H.
  apply (DecimalPos.Unsigned.to_uint_nonzero p). rewrite E. exact H.
Qed.

(** An unsigned integer as [JSON.stringify] writes it is read back. *)
Lemma parse_unsigned_pos (p : positive) (rest : list ascii) :
  ends_number rest = true ->
  parse_unsigned (list_ascii_of_string (NilEmpty.string_of_uint (Pos.to_uint p)) ++ rest)
  = Some (Zpos p, rest).
Proof.
  intros Hrest.
  pose proof (DecimalPos.Unsigned.of_to p) as Hp.
  pose proof (to_uint_no_leading_zero p) as Hz.
  pose proof (DecimalPos.Unsigned.to_uint_nonnil p) as Hn.
  destruct (Pos.to_uint p) as [|l|l|l|l|l|l|l|l|l|l];
    [congruence | exfalso; apply (Hz l); reflexivity | ..];
    cbn [NilEmpty.string_of_uint list_ascii_of_string app parse_unsigned];
    cbn [Pos.of_uint] in Hp; injection Hp as Hp;
    match goal with
    | |- context [digit_of ?c] =>
        let v := eval vm_compute in (digit_of c) in change (digit_of c) with v
    end;
    cbv iota; cbn [Z.eqb];
    rewrite (parse_digits_uint l _ rest Hrest), uint_value_pos, Hp;
    unfold ends_number in Hrest;
    (destruct rest as [|c rest];
     [reflexivity | destruct (_ || _); [discriminate | reflexivity]]).
Qed.

Lemma digit_not_special (c : ascii) (d : Z) :
  digit_of c = Some d ->
  is_ws c = false /\ Ascii.eqb c "-" = false /\ Ascii.eqb c "{" = false /\
  Ascii.eqb c "[" = false /\ Ascii.eqb c dquote = false.
Proof.
  destruct c as [[] [] [] [] [] [] [] []]; vm_compute; intros H;
    try discriminate H; repeat split.
Qed.

Lemma digits_of_pos_head (p : positive) :
  exists c tl d,
    list_ascii_of_string (NilZero.string_of_uint (Pos.to_uint p)) = c :: tl /\
    list_ascii_of_string (NilEmpty.string_of_uint (Pos.to_uint p)) = c :: tl /\
    digit_of c = Some d.
Proof.
  pose proof (DecimalPos.Unsigned.to_uint_nonnil p) as Hn.
  destruct (Pos.to_uint p); [congruence | ..];
    do 3 eexists; repeat split; reflexivity.
Qed.

(** An integer as [JSON.stringify] writes it is read back by the number
    rule of [JSON.parse]. *)
Lemma parse_number_digits (z : Z) (rest : list ascii) :
  safe z = true ->
  ends_number rest = true ->
  parse_number (digits_of z ++ rest) = Some (Num z, rest).
Proof.
  intros Hsafe Hrest. destruct z as [|p|p].
  - change (digits_of 0) with ["0"%char]. cbn [app parse_number parse_unsigned].
    change (Ascii.eqb "0" "-") with false. change (digit_of "0") with (Some 0%Z).
    cbv iota. cbn [Z.eqb]. unfold ends_number in Hrest.
    destruct rest as [|c rest]; [reflexivity|].
    destruct (_ || _); [discriminate | reflexivity].
  - destruct (digits_of_pos_head p) as (c & tl & d & H0 & H1 & Hd).
    unfold digits_of. cbn [Z.to_int NilZero.string_of_int].
    pose proof (parse_unsigned_pos p rest Hrest) as Hu.
    rewrite H0. rewrite H1 in Hu. cbn [app] in *. cbn [parse_number].
    destruct (digit_not_special c d Hd) as (_ & Hm & _). rewrite Hm, Hu, Hsafe.
    reflexivity.
  - destruct (digits_of_pos_head p) as (c & tl & d & H0 & H1 & Hd).
    unfold digits_of. cbn [Z.to_int NilZero.string_of_int list_ascii_of_string app].
    pose proof (parse_unsigned_pos p rest Hrest) as Hu.
    rewrite H0. rewrite H1 in Hu. cbn [parse_number].
    change (Ascii.eqb "-" "-") with true. cbv iota. rewrite Hu.
    change (safe (Zpos p)) with (safe (Zneg p)). rewrite Hsafe. reflexivity.
Qed.

Lemma digits_of_head (z : Z) :
  exists c tl,
    digits_of z = c :: tl /\
    is_ws c = false /\ Ascii.eqb c "{" = false /\
    Ascii.eqb c "[" = false /\ Ascii.eqb c dquote = false.
Proof.
  destruct z as [|p|p].
  - do 2 eexists. repeat split.
  - destruct (digits_of_pos_head p) as (c & tl & d & H0 & _ & Hd).
    exists c, tl. destruct (digit_not_special c d Hd) as (H1 & _ & H2 & H3 & H4).
    repeat split; assumption.
  - do 2 eexists. repeat split.
Qed.

Lemma parse_value_digits (f : nat) (z : Z) (rest : list ascii) :
  safe z = true ->
  ends_number rest = true ->
  parse_value (S f) (digits_of z ++ rest) = Some (Num z, rest).
Proof.
  intros Hsafe Hrest.
  pose proof (parse_number_digits z rest Hsafe Hrest) as Hn.
  destruct (digits_of_head z) as (c & tl & E & H1 & H2 & H3 & H4).
  rewrite E in *. cbn [app] in *. cbn [parse_value skip_ws].
  rewrite H1, H2, H3, H4. exact Hn.
Qed.

(* ------------------------------------------------------------------ *)
(** ** Objects of integers through getJSON and fromJSON                 *)

Lemma list_ascii_of_string_app (a b : string) :
  list_ascii_of_string (a ++ b) = (list_ascii_of_string a ++ list_ascii_of_string b)%list.
Proof. induction a as [|c a IH]; simpl; congruence. Qed.

Lemma plain_not_quote (c : ascii) :
  plain_char c = true -> Ascii.eqb c dquote = false.
Proof.
  destruct c as [[] [] [] [] [] [] [] []]; vm_compute; intros H;
    try discriminate H; reflexivity.
Qed.

Lemma parse_string_plain (k : string) (rest : list ascii) :
  forallb plain_char (list_ascii_of_string k) = true ->
  parse_string (list_ascii_of_string k ++ dquote :: rest) = Some (k, rest).
Proof.
  induction k as [|c k IH]; intros H.
  - cbn [list_ascii_of_string app parse_string].
    change (Ascii.eqb dquote dquote) with true. reflexivity.
  - cbn [list_ascii_of_string forallb] in H. apply andb_true_iff in H as [Hc Hk].
    cbn [list_ascii_of_string app parse_string].
    rewrite (plain_not_quote c Hc), Hc, (IH Hk). reflexivity.
Qed.

(** One member [key:number] followed by a comma or by the closing brace. *)
Lemma parse_members_one (f : nat) (p : string * data) (c : ascii)
      (rest : list ascii) (acc : list (string * data)) :
  integer_field p = true ->
  c = ","%char \/ c = "}"%char ->
  parse_members (S (S f)) (member_chars p ++ c :: rest) acc
  = if Ascii.eqb c ","
    then parse_members (S f) rest (set_member (fst p) (snd p) acc)
    else Some (Obj (set_member (fst p) (snd p) acc), rest).
Proof.
  intros Hp Hc. destruct p as [k d]. unfold integer_field in Hp. cbn [fst snd] in *.
  apply andb_true_iff in Hp as [Hk Hd].
  destruct d as [z| | |]; try discriminate Hd.
  unfold member_chars. cbn [fst snd app].
  change (parse_members (S (S f)) ?s acc)
    with (match skip_ws s with
          | c0 :: r =>
              if Ascii.eqb c0 dquote then
                match parse_string r with
                | Some (k0, r1) =>
                    match skip_ws r1 with
                    | c2 :: r2 =>
                        if Ascii.eqb c2 ":" then
                          match parse_value (S f) r2 with
                          | Some (v, r3) =>
                              match skip_ws r3 with
                              | c4 :: r4 =>
                                  if Ascii.eqb c4 ","
                                  then parse_members (S f) r4 (set_member k0 v acc)
                                  else if Ascii.eqb c4 "}"
                                       then Some (Obj (set_member k0 v acc), r4)
                                       else None
                              | [] => None
                              end
                          | None => None
                          end
                        else None
                    | [] => None
                    end
                | None => None
                end
              else None
          | [] => None
          end).
  cbn [skip_ws]. change (is_ws dquote) with false. cbv iota.
  change (Ascii.eqb dquote dquote) with true. cbv iota.
  rewrite <- List.app_assoc. cbn [app].
  rewrite (parse_string_plain k _ Hk).
  cbn [skip_ws]. change (is_ws ":") with false. cbv iota.
  change (Ascii.eqb ":" ":") with true. cbv iota.
  rewrite (parse_value_digits f z (c :: rest) Hd)
    by (destruct Hc as [-> | ->]; reflexivity).
  destruct Hc as [-> | ->]; reflexivity.
Qed.

Lemma member_chars_length (p : string * data) : 1 <= length (member_chars p).
Proof. unfold member_chars. cbn [length]. lia. Qed.

Lemma body_chars_length (l : list (string * data)) :
  length l <= length (body_chars l).
Proof.
  induction l as [|p r IH]; [cbn; lia|].
  cbn [body_chars]. destruct r as [|q r].
  - pose proof (member_chars_length p). cbn [length]. lia.
  - rewrite length_app. pose proof (member_chars_length p).
    cbn [length] in *. lia.
Qed.

Lemma parse_members_body (l : list (string * data)) :
  forall F acc rest,
    l <> [] ->
    forallb integer_field l = true ->
    length l < F ->
    parse_members F (body_chars l ++ "}"%char :: rest) acc
    = Some (Obj (fold_left (fun a p => set_member (fst p) (snd p) a) l acc), rest).
Proof.
  induction l as [|p r IH]; intros F acc rest Hne Hint HF; [congruence|].
  cbn [forallb] in Hint. apply andb_true_iff in Hint as [Hp Hr].
  destruct F as [|[|f]]; cbn [length] in HF; try lia.
  destruct r as [|q r].
  - cbn [body_chars fold_left].
    rewrite (parse_members_one f p "}" rest acc Hp) by (right; reflexivity).
    reflexivity.
  - change (body_chars (p :: q :: r))
      with (member_chars p ++ ","%char :: body_chars (q :: r))%list.
    rewrite <- List.app_assoc. cbn [app].
    rewrite (parse_members_one f p "," _ acc Hp) by (left; reflexivity).
    change (Ascii.eqb "," ",") with true. cbv iota.
    rewrite (IH (S f) _ rest); [reflexivity | discriminate | exact Hr |].
    cbn [length] in *. lia.
Qed.

Lemma set_member_fresh (k : string) (v : data) (acc : list (string * data)) :
  ~ In k (map fst acc) -> set_member k v acc = (acc ++ [(k, v)])%list.
Proof.
  induction acc as [|[k' v'] acc IH]; intros H; [reflexivity|].
  cbn [set_member]. cbn [map fst In] in H.
  destruct (String.eqb k' k) eqn:E.
  - apply String.eqb_eq in E. tauto.
  - cbn [app]. rewrite IH by tauto. reflexivity.
Qed.

Lemma distinct_cons (k : string) (r : list string) :
  distinct (k :: r) = true -> ~ In k r /\ distinct r = true.
Proof.
  cbn [distinct]. intros H. apply andb_true_iff in H as [H1 H2].
  split; [|exact H2]. intros Hin.
  apply negb_true_iff in H1.
  assert (E : existsb (String.eqb k) r = true)
    by (apply existsb_exists; exists k; split; [exact Hin | apply String.eqb_refl]).
  congruence.
Qed.

Lemma fold_set_member (l : list (string * data)) :
  forall acc,
    distinct (map fst l) = true ->
    (forall k, In k (map fst acc) -> ~ In k (map fst l)) ->
    fold_left (fun a p => set_member (fst p) (snd p) a) l acc = (acc ++ l)%list.
Proof.
  induction l as [|[k v] r IH]; intros acc Hd Hdisj.
  - cbn. now rewrite List.app_nil_r.
  - cbn [map fst] in Hd. apply distinct_cons in Hd as [Hk Hr].
    cbn [fold_left fst snd]. rewrite set_member_fresh.
    + rewrite IH; [now rewrite <- List.app_assoc | exact Hr |].
      intros k' Hin Hin'. rewrite map_app in Hin. apply in_app_or in Hin as [Hin|Hin].
      * apply (Hdisj k' Hin). cbn [map fst In]. now right.
      * cbn in Hin. destruct Hin as [<-|[]]. contradiction.
    + intros Hin. apply (Hdisj k Hin). cbn [map fst In]. now left.
Qed.

Lemma member_text_chars (k : string) (z : Z) :
  list_ascii_of_string
    ((String dquote k ++ String dquote "") ++ ":" ++ NilZero.string_of_int (Z.to_int z))
  = member_chars (k, Num z).
Proof.
  rewrite !list_ascii_of_string_app. unfold member_chars, digits_of.
  cbn [list_ascii_of_string fst snd app]. rewrite <- List.app_assoc. reflexivity.
Qed.

(** The members [JSON.stringify] writes for the data properties. *)
Lemma stringify_members (l : list (string * prop)) :
  forallb integer_field (fields_of l) = true ->
  exists xs,
    all (flat_map (fun p =>
                     match snd p with
                     | Method _ => []
                     | Data d =>
                         [match quote (fst p), print d with
                          | Some k, Some v => Some (k ++ ":" ++ v)%string
                          | _, _ => None
                          end]
                     end) l) = Some xs /\
    length xs = length (fields_of l) /\
    list_ascii_of_string (join "," xs) = body_chars (fields_of l).
Proof.
  induction l as [|[k [d|m]] r IH]; intros H.
  - exists []. repeat split.
  - change (fields_of ((k, Data d) :: r)) with ((k, d) :: fields_of r) in *.
    cbn [forallb] in H. apply andb_true_iff in H as [Hp Hr].
    destruct (IH Hr) as (xs & Hall & Hlen & Hchars).
    unfold integer_field in Hp. cbn [fst snd] in Hp.
    apply andb_true_iff in Hp as [Hk Hd].
    destruct d as [z| | |]; try discriminate Hd.
    assert (Hq : quote k = Some (String dquote k ++ String dquote "")%string)
      by (unfold quote; rewrite Hk; reflexivity).
    assert (Hn : print (Num z) = Some (NilZero.string_of_int (Z.to_int z)))
      by (cbn [print]; unfold print_num; rewrite Hd; reflexivity).
    cbn [flat_map snd fst app]. rewrite Hq, Hn. cbn [all]. rewrite Hall.
    cbn [option_map].
    eexists. split; [reflexivity|]. split; [cbn [length]; congruence|].
    unfold join in *. cbn [String.concat body_chars].
    destruct xs as [|x xs]; destruct (fields_of r) as [|q fs]; try discriminate Hlen.
    + apply member_text_chars.
    + rewrite list_ascii_of_string_app, member_text_chars.
      rewrite list_ascii_of_string_app, Hchars. reflexivity.
  - change (fields_of ((k, Method m) :: r)) with (fields_of r) in *.
    cbn [flat_map snd app]. apply IH, H.
Qed.

(** The text [getJSON] writes: the members between braces. *)
Lemma getJSON_text (o : object) :
  no_toJSON o = true ->
  forallb integer_field (fields_of (own o)) = true ->
  exists json,
    getJSON o = Some json /\
    list_ascii_of_string json
    = ("{"%char :: body_chars (fields_of (own o)) ++ ["}"%char])%list.
Proof.
  intros Hto Hint.
  destruct (stringify_members (own o) Hint) as (xs & Hall & _ & Hchars).
  exists ("{" ++ join "," xs ++ "}")%string. split.
  - unfold getJSON, JSON_stringify. unfold no_toJSON in Hto.
    destruct (get o "toJSON") as [[d|m]|]; try discriminate Hto;
      rewrite Hall; reflexivity.
  - rewrite !list_ascii_of_string_app, Hchars. reflexivity.
Qed.

(** Such a text is read back as the members it was written from. *)
Lemma JSON_parse_text (json : string) (fs : list (string * data)) :
  list_ascii_of_string json = ("{"%char :: body_chars fs ++ ["}"%char])%list ->
  forallb integer_field fs = true ->
  distinct (map fst fs) = true ->
  JSON_parse json = Some (Obj fs).
Proof.
  intros Hchars Hint Hdist. unfold JSON_parse. rewrite Hchars.
  cbn [length parse_value skip_ws]. change (is_ws "{") with false. cbv iota.
  change (Ascii.eqb "{" "{") with true. cbv iota.
  destruct fs as [|p r]; [reflexivity|].
  assert (Hhead : exists tl, body_chars (p :: r) = dquote :: tl).
  { cbn [body_chars]. destruct r; unfold member_chars; cbn [app];
      eexists; reflexivity. }
  destruct Hhead as (tl & Htl).
  assert (Hskip : skip_ws (body_chars (p :: r) ++ ["}"%char])
                  = (body_chars (p :: r) ++ ["}"%char])%list).
  { rewrite Htl. reflexivity. }
  rewrite Hskip. rewrite Htl at 1. cbn [app].
  change (Ascii.eqb dquote "}") with false. cbv iota.
  rewrite (parse_members_body (p :: r) _ [] []); [| discriminate | exact Hint |].
  - rewrite fold_set_member; [reflexivity | exact Hdist |].
    intros k [].
  - pose proof (body_chars_length (p :: r)). rewrite length_app. lia.
Qed.

(** X6: an object whose data properties are safe integers under plain,
    distinct keys, and which has no [toJSON], goes through [getJSON] and
    [fromJSON] unchanged: the result owns the same data properties in the
    same order, its methods are gone, and its prototype is the one given. *)
Theorem integer_object_roundtrip (o proto : object)
  (Hplain : no_toJSON o = true)
  (Hint : forallb integer_field (fields_of (own o)) = true)
  (Hdist : distinct (map fst (fields_of (own o))) = true) :
  exists json,
    getJSON o = Some json /\
    fromJSON proto json
    = Some (mkObject (map (fun p => (fst p, Data (snd p))) (fields_of (own o)))
                     (Some proto)).
Proof.
  destruct (getJSON_text o Hplain Hint) as (json & Hjson & Hchars).
  exists json. split; [exact Hjson|].
  unfold fromJSON.
  rewrite (JSON_parse_text json (fields_of (own o)) Hchars Hint Hdist).
  reflexivity.
Qed.

Lemma integer_object_roundtrip_witness :
  exists json,
    getJSON (Rectangle (-3) 20) = Some json /\
    fromJSON RectangleShape json
    = Some (mkObject [("width"%string, Data (Num (-3))); ("height"%string, Data (Num 20))]
                     (Some RectangleShape)).
Proof.
  apply (integer_object_roundtrip (Rectangle (-3) 20) RectangleShape); reflexivity.
Defined.








